(** * The seccomp policy installer of core/jni/android_os_seccomp.cpp

    A shallow embedding of the filter builder ([Trap], [ExamineSyscall],
    [ValidateArchitectureAndJumpIfNeeded],
    [SetValidateArchitectureJumpTarget], [set_seccomp_filter],
    [install_filter], [Seccomp_setPolicy]) together with an evaluator for
    the classic-BPF programs it builds.

    C++ integers are [Z] with the wrap-around of their width written out;
    [std::vector<sock_filter>] is a [list] indexed with stdpp's lookup and
    insert; the vector passed by reference and the kernel are threaded
    through a small state monad whose results also record [exit] and
    undefined behaviour. *)

From Stdlib Require Import ZArith Lia Bool.
From stdpp Require Import base list.

Local Open Scope Z_scope.

(** ** Machine integers *)

Definition to_u8 (z : Z) : Z := z mod 2 ^ 8.
Definition to_u16 (z : Z) : Z := z mod 2 ^ 16.
Definition to_u32 (z : Z) : Z := z mod 2 ^ 32.
Definition to_size_t (z : Z) : Z := z mod 2 ^ 64.

(** Conversion of an [int] to [bool], as in [return -1;] from a function
    declared [bool]: every non-zero value is [true]. *)
Definition bool_of_int (z : Z) : bool := negb (z =? 0).

(** ** The kernel headers *)

(** Modelled from the spec: the declarations of <linux/filter.h>,
    <linux/bpf_common.h>, <linux/seccomp.h> and <linux/audit.h>, which the
    source includes and which are not part of it. The instruction record is
    the spec's [{opcode: 16 bits, jumpIfTrue: 8 bits, jumpIfFalse: 8 bits,
    operand: 32 bits}]; the spec names the instruction kinds, the terminal
    actions and the two architecture tags without their numbers, for which
    the values of the Linux UAPI are taken. *)
Module Linux.

Definition BPF_LD : Z := 0x00.
Definition BPF_JMP : Z := 0x05.
Definition BPF_RET : Z := 0x06.
Definition BPF_W : Z := 0x00.
Definition BPF_ABS : Z := 0x20.
Definition BPF_JA : Z := 0x00.
Definition BPF_JEQ : Z := 0x10.
Definition BPF_JGT : Z := 0x20.
Definition BPF_JGE : Z := 0x30.
Definition BPF_JSET : Z := 0x40.
Definition BPF_K : Z := 0x00.

Definition SECCOMP_RET_KILL : Z := 0x00000000.
Definition SECCOMP_RET_TRAP : Z := 0x00030000.
Definition SECCOMP_RET_ERRNO : Z := 0x00050000.
Definition SECCOMP_RET_TRACE : Z := 0x7ff00000.
Definition SECCOMP_RET_ALLOW : Z := 0x7fff0000.

(** EM_AARCH64 | __AUDIT_ARCH_64BIT | __AUDIT_ARCH_LE *)
Definition AUDIT_ARCH_AARCH64 : Z := 0xC00000B7.
(** EM_ARM | __AUDIT_ARCH_LE *)
Definition AUDIT_ARCH_ARM : Z := 0x40000028.

(** [struct sock_filter { __u16 code; __u8 jt; __u8 jf; __u32 k; }] *)
Record sock_filter : Type := mk_sock_filter {
  code : Z;
  jt : Z;
  jf : Z;
  k : Z
}.

(** [#define BPF_STMT(code, k) { (unsigned short)(code), 0, 0, k }] *)
Definition BPF_STMT (c kv : Z) : sock_filter :=
  {| code := to_u16 c; jt := 0; jf := 0; k := to_u32 kv |}.

(** [#define BPF_JUMP(code, k, jt, jf) { (unsigned short)(code), jt, jf, k }];
    the two jump fields are eight bits wide. *)
Definition BPF_JUMP (c kv t f : Z) : sock_filter :=
  {| code := to_u16 c; jt := to_u8 t; jf := to_u8 f; k := to_u32 kv |}.

(** [struct sock_fprog { unsigned short len; struct sock_filter *filter; }];
    the pointer is modelled by the array it points to. *)
Record sock_fprog : Type := mk_sock_fprog {
  len : Z;
  filter_ptr : list sock_filter
}.

(** [struct seccomp_data { int nr; __u32 arch; ... }]: the two fields
    the programs built here read, at byte offsets 0 and 4. *)
Record seccomp_data : Type := mk_seccomp_data {
  nr : Z;
  arch : Z
}.

Definition offsetof_nr : Z := 0.
Definition offsetof_arch : Z := 4.

End Linux.
Export Linux.

(** ** The source file *)

(** [#define syscall_nr (offsetof(struct seccomp_data, nr))] *)
Definition syscall_nr : Z := offsetof_nr.
(** [#define arch_nr (offsetof(struct seccomp_data, arch))] *)
Definition arch_nr : Z := offsetof_arch.

(** [typedef std::vector<sock_filter> filter;] *)
Definition filter : Type := list sock_filter.

(** [f.size()] *)
Definition size (f : filter) : Z := Z.of_nat (length f).

(** [f.push_back(x)] *)
Definition push_back (f : filter) (x : sock_filter) : filter := f ++ [x].

(** *** State and effects

    The state threaded through the calls: the vector [f] that the helpers
    take by reference, and the [prctl] calls made so far. *)
Record world : Type := mk_world {
  vec : filter;
  calls : list sock_fprog
}.

(** What a call can do: return, call [exit], or run into undefined
    behaviour (an indexed write outside the vector). *)
Inductive result (A : Type) : Type :=
| Done (a : A) (w : world)
| Exit (status : Z) (w : world)
| Undefined.
Arguments Done {A} a w.
Arguments Exit {A} status w.
Arguments Undefined {A}.

Definition M (A : Type) : Type := world -> result A.

Definition ret {A} (a : A) : M A := fun w => Done a w.

Definition bind {A B} (m : M A) (g : A -> M B) : M B :=
  fun w =>
    match m w with
    | Done a w' => g a w'
    | Exit st w' => Exit st w'
    | Undefined => Undefined
    end.

Notation "x <- m ;; g" := (bind m (fun x => g))
  (at level 100, m at next level, right associativity).
Notation "m ;;; g" := (bind m (fun _ => g))
  (at level 100, right associativity).

(** [f.push_back(x)] on the vector of the state. *)
Definition emit (x : sock_filter) : M unit :=
  fun w => Done tt {| vec := push_back (vec w) x; calls := calls w |}.

(** [f.size()] on the vector of the state. *)
Definition get_size : M Z := fun w => Done (size (vec w)) w.

(** [f[offset] = x]: defined only inside the vector. *)
Definition store (offset : Z) (x : sock_filter) : M unit :=
  fun w =>
    if (0 <=? offset) && (offset <? size (vec w))
    then Done tt {| vec := <[Z.to_nat offset := x]> (vec w); calls := calls w |}
    else Undefined.

(** [exit(status)] *)
Definition exit {A} (status : Z) : M A := fun w => Exit status w.

(** [filter f;] a fresh, empty vector. *)
Definition new_filter : M unit :=
  fun w => Done tt {| vec := []; calls := calls w |}.

(** [for (size_t i = 0; i < n; ++i) f.push_back(a[i]);] where the array
    [a] and its size [n] are given as the list of its [n] elements. *)
Fixpoint push_all (a : list sock_filter) : M unit :=
  match a with
  | [] => ret tt
  | x :: rest => emit x ;;; push_all rest
  end.

(** *** Emitters *)

Definition Kill : M unit := emit (BPF_STMT (Z.lor BPF_RET BPF_K) SECCOMP_RET_KILL).

Definition Trap : M unit := emit (BPF_STMT (Z.lor BPF_RET BPF_K) SECCOMP_RET_TRAP).

Definition Error (retcode : Z) : M unit :=
  emit (BPF_STMT (Z.lor BPF_RET BPF_K) (SECCOMP_RET_ERRNO + to_u16 retcode)).

Definition Trace : M unit := emit (BPF_STMT (Z.lor BPF_RET BPF_K) SECCOMP_RET_TRACE).

Definition Allow : M unit := emit (BPF_STMT (Z.lor BPF_RET BPF_K) SECCOMP_RET_ALLOW).

Definition ExamineSyscall : M unit :=
  emit (BPF_STMT (Z.lor (Z.lor BPF_LD BPF_W) BPF_ABS) syscall_nr).

(** The branch opcode [BPF_JMP|BPF_JEQ|BPF_K]. *)
Definition JEQ_K : Z := Z.lor (Z.lor BPF_JMP BPF_JEQ) BPF_K.

Definition SetValidateArchitectureJumpTarget (offset : Z) : M Z :=
  sz <- get_size ;;
  let jump_length := to_size_t (sz - offset - 1) in
  let u8_jump_length := to_u8 jump_length in
  if negb (u8_jump_length =? jump_length) then
    ret (-1)
  else
    store offset (BPF_JUMP JEQ_K AUDIT_ARCH_ARM u8_jump_length 0) ;;;
    ret 0.

Definition ValidateArchitectureAndJumpIfNeeded : M Z :=
  emit (BPF_STMT (Z.lor (Z.lor BPF_LD BPF_W) BPF_ABS) arch_nr) ;;;
  emit (BPF_JUMP JEQ_K AUDIT_ARCH_AARCH64 2 0) ;;;
  emit (BPF_JUMP JEQ_K AUDIT_ARCH_ARM 1 0) ;;;
  Trap ;;;
  sz <- get_size ;;
  ret (to_size_t (sz - 2)).

Section Kernel.

(** The return value of [prctl(PR_SET_SECCOMP, SECCOMP_MODE_FILTER, &prog)]. *)
Variable prctl : sock_fprog -> Z.

(** The two externally generated policy arrays of seccomp_policy.h, each
    given as the list of its [arm64_filter_size] (resp. [arm_filter_size])
    elements. *)
Variables arm64_filter arm_filter : list sock_filter.

(** The messages written with [ALOGE] and [ALOGI] are not part of the
    state and are left out here and below. *)
Definition install_filter : M bool :=
  fun w =>
    let prog := {| len := to_u16 (size (vec w)); filter_ptr := vec w |} in
    let w' := {| vec := vec w; calls := calls w ++ [prog] |} in
    if prctl prog <? 0 then Done false w' else Done true w'.

Definition set_seccomp_filter : M bool :=
  new_filter ;;;
  offset_to_32bit_filter <- ValidateArchitectureAndJumpIfNeeded ;;
  ExamineSyscall ;;;
  push_all arm64_filter ;;;
  Trap ;;;
  rc <- SetValidateArchitectureJumpTarget offset_to_32bit_filter ;;
  if negb (rc =? 0) then
    ret (bool_of_int (-1))
  else
    ExamineSyscall ;;;
    push_all arm_filter ;;;
    Trap ;;;
    install_filter.

(** [Seccomp_setPolicy] under [#if defined __arm__ || defined __aarch64__]
    and under its [#else]; the two macros are the booleans. *)
Definition Seccomp_setPolicy (defined_arm defined_aarch64 : bool) : M unit :=
  if defined_arm || defined_aarch64 then
    ok <- set_seccomp_filter ;;
    if negb ok then exit 1 else ret tt
  else
    ret tt.

End Kernel.

(** ** Simulated evaluation *)

(** The interpreter of the built programs is the kernel's and is not in the
    source. What follows is the spec's simulated evaluation, interpreting
    the bytecode against a given architecture tag and syscall number, with
    the classic-BPF reading of the instruction kinds. *)
Module Simulation.

(** What executing one instruction does: go on with a new accumulator
    after passing over [skip] instructions, return a value, or neither. *)
Inductive action : Type :=
| Continue (A : Z) (skip : nat)
| Return (value : Z)
| Invalid.

(** The 32-bit word of [seccomp_data] at a byte offset; only the syscall
    number and the architecture tag are part of the simulation. *)
Definition load_word (d : seccomp_data) (off : Z) : option Z :=
  if off =? offsetof_nr then Some (nr d)
  else if off =? offsetof_arch then Some (arch d)
  else None.

(** A conditional branch passes over [jt] instructions when its condition
    holds and over [jf] otherwise. *)
Definition branch (cond : bool) (i : sock_filter) (A : Z) : action :=
  Continue A (Z.to_nat (if cond then jt i else jf i)).

(** Modelled from the spec: one instruction of the simulated evaluation.
    A load puts a word of [seccomp_data] in the accumulator [A]; the
    branches compare [A] with the operand [k]; a return ends the evaluation
    with its operand. *)
Definition step (d : seccomp_data) (i : sock_filter) (A : Z) : action :=
  let c := code i in
  if c =? Z.lor (Z.lor BPF_LD BPF_W) BPF_ABS then
    match load_word d (k i) with
    | Some v => Continue v 0
    | None => Invalid
    end
  else if c =? Z.lor BPF_JMP BPF_JA then Continue A (Z.to_nat (k i))
  else if c =? Z.lor (Z.lor BPF_JMP BPF_JEQ) BPF_K then branch (A =? k i) i A
  else if c =? Z.lor (Z.lor BPF_JMP BPF_JGT) BPF_K then branch (k i <? A) i A
  else if c =? Z.lor (Z.lor BPF_JMP BPF_JGE) BPF_K then branch (k i <=? A) i A
  else if c =? Z.lor (Z.lor BPF_JMP BPF_JSET) BPF_K then
    branch (negb (Z.land A (k i) =? 0)) i A
  else if c =? Z.lor BPF_RET BPF_K then Return (k i)
  else Invalid.

(** How an evaluation ends: at the return instruction of index [pc]; by
    leaving the sequence, [pc] being its end and [skip] the number of
    further instructions control was to pass over; or at an instruction
    outside the simulated set. *)
Inductive outcome : Type :=
| Returned (pc : nat) (value : Z)
| FellOff (pc : nat) (skip : nat) (A : Z)
| BadInstruction (pc : nat).

(** Modelled from the spec: the simulated evaluation of the instructions
    [l], the first of which has index [pc], after passing over [skip] of
    them. All jumps are forward, so one pass over the sequence is the whole
    evaluation, and it always ends. *)
Fixpoint exec (d : seccomp_data) (l : list sock_filter) (pc skip : nat) (A : Z)
  : outcome :=
  match l with
  | [] => FellOff pc skip A
  | i :: rest =>
      match skip with
      | S n => exec d rest (S pc) n A
      | O =>
          match step d i A with
          | Continue A' skip' => exec d rest (S pc) skip' A'
          | Return v => Returned pc v
          | Invalid => BadInstruction pc
          end
      end
  end.

(** Modelled from the spec: simulated evaluation of a whole program
    against [d], from its first instruction, with a zero accumulator. *)
Definition evaluate (prog : list sock_filter) (d : seccomp_data) : outcome :=
  exec d prog 0 0 0.

(** A policy block falls through on [d] when, entered with the syscall
    number loaded, control leaves it exactly at its end. *)
Definition falls_through (block : list sock_filter) (d : seccomp_data) : Prop :=
  exists A, exec d block 0 0 (nr d) = FellOff (length block) 0 A.

(** An instruction followed by [n] more in its block stays in the block:
    it is in the simulated set and its jumps land inside the block or
    just after its last instruction. *)
Definition insn_closed (i : sock_filter) (n : nat) : bool :=
  let c := code i in
  if c =? Z.lor (Z.lor BPF_LD BPF_W) BPF_ABS then
    (k i =? offsetof_nr) || (k i =? offsetof_arch)
  else if c =? Z.lor BPF_JMP BPF_JA then (Z.to_nat (k i) <=? n)%nat
  else if (c =? Z.lor (Z.lor BPF_JMP BPF_JEQ) BPF_K)
          || (c =? Z.lor (Z.lor BPF_JMP BPF_JGT) BPF_K)
          || (c =? Z.lor (Z.lor BPF_JMP BPF_JGE) BPF_K)
          || (c =? Z.lor (Z.lor BPF_JMP BPF_JSET) BPF_K)
  then (Z.to_nat (jt i) <=? n)%nat && (Z.to_nat (jf i) <=? n)%nat
  else c =? Z.lor BPF_RET BPF_K.

Fixpoint block_closed (l : list sock_filter) : bool :=
  match l with
  | [] => true
  | i :: rest => insn_closed i (length rest) && block_closed rest
  end.

End Simulation.
Export Simulation.

(** ** Closed forms of the emitted instructions *)

Definition ld_arch : sock_filter := {| code := 0x20; jt := 0; jf := 0; k := 4 |}.
Definition ld_nr : sock_filter := {| code := 0x20; jt := 0; jf := 0; k := 0 |}.
Definition trap : sock_filter :=
  {| code := 0x06; jt := 0; jf := 0; k := SECCOMP_RET_TRAP |}.
Definition jeq (tag t : Z) : sock_filter :=
  {| code := 0x15; jt := t; jf := 0; k := tag |}.

(** The four instructions of the architecture gate; [skip64] and [skip32]
    are the true-branch offsets of its two branches. *)
Definition gate (skip64 skip32 : Z) : filter :=
  [ld_arch; jeq AUDIT_ARCH_AARCH64 skip64; jeq AUDIT_ARCH_ARM skip32; trap].

(** The vector when the jump target is set: the gate and the 64-bit
    section. *)
Definition front (a64 : list sock_filter) : filter :=
  gate 2 1 ++ [ld_nr] ++ a64 ++ [trap].

(** The finished program. *)
Definition layout (a64 a32 : list sock_filter) : filter :=
  gate 2 (size a64 + 3) ++ [ld_nr] ++ a64 ++ [trap] ++ [ld_nr] ++ a32 ++ [trap].

(** The record handed to the kernel for a vector [f]. *)
Definition fprog (f : filter) : sock_fprog :=
  {| len := to_u16 (size f); filter_ptr := f |}.

(** The [prctl] calls a run added to those made [before] it. *)
Definition submitted {A} (r : result A) (before : world) : list sock_fprog :=
  match r with
  | Done _ w | Exit _ w => drop (length (calls before)) (calls w)
  | Undefined => []
  end.

(** The vector a run leaves behind. *)
Definition built {A} (r : result A) : option filter :=
  match r with
  | Done _ w | Exit _ w => Some (vec w)
  | Undefined => None
  end.

(** The state before anything ran, and the return instruction that allows
    a syscall. *)
Definition boot : world := {| vec := []; calls := [] |}.

Definition allow : sock_filter :=
  {| code := 0x06; jt := 0; jf := 0; k := SECCOMP_RET_ALLOW |}.

(** What the gate is said to emit, as a function of the true-branch offset
    [skip64] of its 64-bit branch: the load of the architecture tag, the
    branch on the 64-bit tag, the branch on the 32-bit tag with some
    placeholder offset, and the trap; the value returned is the index of
    the 32-bit branch. *)
Definition gate_emits (skip64 : Z) (w : world) : Prop :=
  exists placeholder,
    ValidateArchitectureAndJumpIfNeeded w =
    Done (size (vec w) + 2)
         {| vec := vec w ++ gate skip64 placeholder; calls := calls w |}.

(** The instruction an evaluation returned at. *)
Definition returns_at (l : list sock_filter) (base pc : nat) (v : Z) : Prop :=
  exists i, l !! (pc - base)%nat = Some i /\ (base <= pc)%nat /\
            code i = Z.lor BPF_RET BPF_K /\ k i = v.

(** The outcome of a sequence placed [n] instructions further on. *)
Definition relocate (n : nat) (o : outcome) : outcome :=
  match o with
  | Returned pc v => Returned (n + pc) v
  | FellOff pc skip A => FellOff (n + pc) skip A
  | BadInstruction pc => BadInstruction (n + pc)
  end.

(** Modelled from the spec: the same evaluation told with a program
    counter, as the kernel's interpreter is usually described: the
    instruction at [pc] runs, and control moves to [pc + 1] plus the
    offset it chose. [fuel] bounds the number of instructions run. *)
Fixpoint run (fuel : nat) (d : seccomp_data) (prog : list sock_filter)
    (pc : nat) (A : Z) : option outcome :=
  match fuel with
  | O => None
  | S fuel' =>
      match prog !! pc with
      | None => Some (FellOff (length prog) (pc - length prog) A)
      | Some i =>
          match step d i A with
          | Continue A' skip => run fuel' d prog (S pc + skip) A'
          | Return v => Some (Returned pc v)
          | Invalid => Some (BadInstruction pc)
          end
      end
  end.


(** The five emitters of return instructions, each with the value its
    instruction returns; [retcode] is the argument of [Error]. *)
Definition terminal_emitters (retcode : Z) : list (M unit * Z) :=
  [ (Kill, SECCOMP_RET_KILL);
    (Trap, SECCOMP_RET_TRAP);
    (Error retcode, SECCOMP_RET_ERRNO + to_u16 retcode);
    (Trace, SECCOMP_RET_TRACE);
    (Allow, SECCOMP_RET_ALLOW) ].

#[global] Arguments to_u8 : simpl never.
#[global] Arguments to_u16 : simpl never.
#[global] Arguments to_u32 : simpl never.
#[global] Arguments to_size_t : simpl never.

(** ** Facts about the machine integers and the monad *)

Lemma to_u8_id (z : Z) : 0 <= z <= 255 -> to_u8 z = z.
Proof. intros H. unfold to_u8. apply Z.mod_small. lia. Qed.

Lemma to_u8_fixpoint (z : Z) : to_u8 z = z <-> 0 <= z <= 255.
Proof.
  split; [|apply to_u8_id].
  unfold to_u8. intros H.
  pose proof (Z.mod_pos_bound z (2 ^ 8) ltac:(lia)). lia.
Qed.

Lemma to_size_t_id (z : Z) : 0 <= z < 2 ^ 64 -> to_size_t z = z.
Proof. intros H. unfold to_size_t. apply Z.mod_small. lia. Qed.

Lemma to_size_t_range (z : Z) : 0 <= to_size_t z < 2 ^ 64.
Proof. unfold to_size_t. apply Z.mod_pos_bound. lia. Qed.

Lemma size_app (f g : filter) : size (f ++ g) = size f + size g.
Proof. unfold size. rewrite length_app. lia. Qed.

Lemma size_nonneg (f : filter) : 0 <= size f.
Proof. unfold size. lia. Qed.

Lemma bind_done {A B} (m : M A) (g : A -> M B) w a w' :
  m w = Done a w' -> bind m g w = g a w'.
Proof. unfold bind. intros ->. reflexivity. Qed.

Lemma emit_done x w :
  emit x w = Done tt {| vec := vec w ++ [x]; calls := calls w |}.
Proof. reflexivity. Qed.

Lemma push_all_done a w :
  push_all a w = Done tt {| vec := vec w ++ a; calls := calls w |}.
Proof.
  revert w. induction a as [|x rest IH]; intros w; simpl.
  - unfold ret. rewrite app_nil_r. destruct w; reflexivity.
  - erewrite bind_done by apply emit_done.
    rewrite IH. simpl. rewrite <- app_assoc. reflexivity.
Qed.

Lemma Trap_done w :
  Trap w = Done tt {| vec := vec w ++ [trap]; calls := calls w |}.
Proof. reflexivity. Qed.

Lemma ExamineSyscall_done w :
  ExamineSyscall w = Done tt {| vec := vec w ++ [ld_nr]; calls := calls w |}.
Proof. reflexivity. Qed.

Lemma ValidateArchitectureAndJumpIfNeeded_done w :
  ValidateArchitectureAndJumpIfNeeded w =
  Done (to_size_t (size (vec w) + 2))
       {| vec := vec w ++ gate 2 1; calls := calls w |}.
Proof.
  unfold ValidateArchitectureAndJumpIfNeeded.
  do 3 (erewrite bind_done by apply emit_done).
  erewrite bind_done by apply Trap_done.
  unfold get_size, bind, ret. cbn [vec calls].
  rewrite <- !app_assoc. cbn [app].
  f_equal. f_equal. rewrite size_app. unfold size at 2. cbn [length]. lia.
Qed.

(** The outcome of the jump patcher, in terms of the distance it computes. *)
Lemma SetValidateArchitectureJumpTarget_unfold offset w :
  SetValidateArchitectureJumpTarget offset w =
  let jump_length := to_size_t (size (vec w) - offset - 1) in
  if 255 <? jump_length then Done (-1) w
  else if (0 <=? offset) && (offset <? size (vec w)) then
    Done 0 {| vec := <[Z.to_nat offset := jeq AUDIT_ARCH_ARM jump_length]> (vec w);
              calls := calls w |}
  else Undefined.
Proof.
  unfold SetValidateArchitectureJumpTarget, bind, get_size. cbn zeta.
  set (d := to_size_t (size (vec w) - offset - 1)).
  pose proof (to_size_t_range (size (vec w) - offset - 1)) as Hd. fold d in Hd.
  destruct (Z.ltb_spec 255 d) as [Hlt|Hle].
  - destruct (Z.eqb_spec (to_u8 d) d) as [He|Hne]; [|reflexivity].
    apply to_u8_fixpoint in He. lia.
  - rewrite (to_u8_id d) by lia. rewrite Z.eqb_refl. cbn [negb].
    unfold store.
    destruct ((0 <=? offset) && (offset <? size (vec w))); [|reflexivity].
    unfold ret, BPF_JUMP, jeq. rewrite (to_u8_id d) by lia. reflexivity.
Qed.

Section Runs.

Variable prctl : sock_fprog -> Z.
Variables arm64_filter arm_filter : list sock_filter.

Lemma install_filter_done w :
  install_filter prctl w =
  Done (negb (prctl (fprog (vec w)) <? 0))
       {| vec := vec w; calls := calls w ++ [fprog (vec w)] |}.
Proof.
  unfold install_filter, fprog.
  destruct (prctl _ <? 0); reflexivity.
Qed.

Lemma size_front : size (front arm64_filter) = size arm64_filter + 6.
Proof.
  unfold front. rewrite !size_app. unfold size at 1 2 4. cbn [length gate]. lia.
Qed.

Lemma front_patched (t : Z) :
  <[2%nat := jeq AUDIT_ARCH_ARM t]> (front arm64_filter) =
  gate 2 t ++ [ld_nr] ++ arm64_filter ++ [trap].
Proof. reflexivity. Qed.

(** The run of [set_seccomp_filter] up to the call that sets the jump
    target leaves the vector [front arm64_filter]; what follows depends
    only on the distance computed there. *)
Lemma set_seccomp_filter_unfold w :
  set_seccomp_filter prctl arm64_filter arm_filter w =
  let jump_length := to_size_t (size arm64_filter + 3) in
  if 255 <? jump_length then
    Done true {| vec := front arm64_filter; calls := calls w |}
  else
    let prog := gate 2 jump_length ++ [ld_nr] ++ arm64_filter ++ [trap]
                  ++ [ld_nr] ++ arm_filter ++ [trap] in
    Done (negb (prctl (fprog prog) <? 0))
         {| vec := prog; calls := calls w ++ [fprog prog] |}.
Proof.
  unfold set_seccomp_filter.
  erewrite bind_done by reflexivity.
  erewrite bind_done by apply ValidateArchitectureAndJumpIfNeeded_done.
  erewrite bind_done by apply ExamineSyscall_done.
  erewrite bind_done by apply push_all_done.
  erewrite bind_done by apply Trap_done.
  cbn [vec calls new_filter app].
  change (to_size_t (size [] + 2)) with 2.
  rewrite <- !app_assoc. fold (front arm64_filter).
  unfold bind at 1.
  rewrite SetValidateArchitectureJumpTarget_unfold. cbn [vec calls]. cbn zeta.
  rewrite size_front.
  replace (size arm64_filter + 6 - 2 - 1) with (size arm64_filter + 3) by lia.
  destruct (255 <? to_size_t (size arm64_filter + 3)); [reflexivity|].
  pose proof (size_nonneg arm64_filter).
  replace ((0 <=? 2) && (2 <? size arm64_filter + 6)) with true
    by (symmetry; apply andb_true_iff; split; [reflexivity | apply Z.ltb_lt; lia]).
  change (Z.to_nat 2) with 2%nat. rewrite front_patched.
  cbn [Z.eqb negb].
  erewrite bind_done by apply ExamineSyscall_done.
  erewrite bind_done by apply push_all_done.
  erewrite bind_done by apply Trap_done.
  rewrite install_filter_done. cbn [vec calls].
  rewrite <- !app_assoc. reflexivity.
Qed.

(** With a 64-bit block of at most 252 instructions the jump fits and the
    finished program is handed to the kernel. *)
Lemma set_seccomp_filter_fits w :
  size arm64_filter <= 252 ->
  set_seccomp_filter prctl arm64_filter arm_filter w =
  Done (negb (prctl (fprog (layout arm64_filter arm_filter)) <? 0))
       {| vec := layout arm64_filter arm_filter;
          calls := calls w ++ [fprog (layout arm64_filter arm_filter)] |}.
Proof.
  intros Hn. rewrite set_seccomp_filter_unfold. cbn zeta.
  pose proof (size_nonneg arm64_filter).
  rewrite to_size_t_id by lia.
  destruct (Z.ltb_spec 255 (size arm64_filter + 3)); [lia|]. reflexivity.
Qed.

(** With a longer block the jump does not fit: the function returns
    [true], the conversion of [-1], and nothing is handed to the
    kernel. *)
Lemma set_seccomp_filter_too_long w :
  252 < size arm64_filter < 2 ^ 64 - 3 ->
  set_seccomp_filter prctl arm64_filter arm_filter w =
  Done true {| vec := front arm64_filter; calls := calls w |}.
Proof.
  intros Hn. rewrite set_seccomp_filter_unfold. cbn zeta.
  rewrite to_size_t_id by lia.
  destruct (Z.ltb_spec 255 (size arm64_filter + 3)); [reflexivity|lia].
Qed.

End Runs.

(** ** Facts about evaluation *)

(** Evaluation of a concatenation: the second part is entered where, and
    only if, control leaves the first. *)
Lemma exec_app d (l1 l2 : list sock_filter) pc skip A :
  exec d (l1 ++ l2) pc skip A =
  match exec d l1 pc skip A with
  | FellOff pc' skip' A' => exec d l2 pc' skip' A'
  | r => r
  end.
Proof.
  revert pc skip A. induction l1 as [|i rest IH]; intros pc skip A; [reflexivity|].
  cbn [app exec]. destruct skip as [|n]; [|apply IH].
  destruct (step d i A); [apply IH | reflexivity | reflexivity].
Qed.

(** Passing over a whole sequence. *)
Lemma exec_pass d (l : list sock_filter) pc skip A :
  (length l <= skip)%nat ->
  exec d l pc skip A = FellOff (pc + length l) (skip - length l) A.
Proof.
  revert pc skip. induction l as [|i rest IH]; intros pc skip Hle; cbn [exec length].
  - f_equal; lia.
  - cbn [length] in Hle. destruct skip as [|n]; [lia|].
    rewrite IH by lia. f_equal; lia.
Qed.

Lemma exec_trap d pc A : exec d [trap] pc 0 A = Returned pc SECCOMP_RET_TRAP.
Proof. reflexivity. Qed.

Lemma exec_ld_nr d (l : list sock_filter) pc A :
  exec d (ld_nr :: l) pc 0 A = exec d l (S pc) 0 (nr d).
Proof. reflexivity. Qed.

(** One step of a closed instruction stays within the [n] instructions
    that follow it. *)
Lemma step_closed d i A n :
  insn_closed i n = true ->
  (exists A' s, step d i A = Continue A' s /\ (s <= n)%nat) \/
  (step d i A = Return (k i) /\ code i = Z.lor BPF_RET BPF_K).
Proof.
  unfold insn_closed, step, load_word, branch.
  destruct (code i =? Z.lor (Z.lor BPF_LD BPF_W) BPF_ABS).
  { intros H. left. apply orb_true_iff in H as [->| H].
    - eexists _, 0%nat. split; [reflexivity|lia].
    - rewrite H. destruct (k i =? offsetof_nr);
        eexists _, 0%nat; (split; [reflexivity|lia]). }
  destruct (code i =? Z.lor BPF_JMP BPF_JA).
  { intros H. apply Nat.leb_le in H. left. eauto. }
  destruct (code i =? Z.lor (Z.lor BPF_JMP BPF_JEQ) BPF_K).
  { cbn [orb]. intros H. apply andb_true_iff in H as [H1 H2].
    apply Nat.leb_le in H1, H2. left. destruct (A =? k i); eauto. }
  destruct (code i =? Z.lor (Z.lor BPF_JMP BPF_JGT) BPF_K).
  { cbn [orb]. intros H. apply andb_true_iff in H as [H1 H2].
    apply Nat.leb_le in H1, H2. left. destruct (k i <? A); eauto. }
  destruct (code i =? Z.lor (Z.lor BPF_JMP BPF_JGE) BPF_K).
  { cbn [orb]. intros H. apply andb_true_iff in H as [H1 H2].
    apply Nat.leb_le in H1, H2. left. destruct (k i <=? A); eauto. }
  destruct (code i =? Z.lor (Z.lor BPF_JMP BPF_JSET) BPF_K).
  { cbn [orb]. intros H. apply andb_true_iff in H as [H1 H2].
    apply Nat.leb_le in H1, H2. left.
    destruct (negb (Z.land A (k i) =? 0)); eauto. }
  cbn [orb]. intros H. rewrite H. right. split; [reflexivity|].
  apply Z.eqb_eq. exact H.
Qed.

(** A closed block either returns at one of its own return instructions
    or is left exactly at its end. *)
Lemma exec_closed d (l : list sock_filter) :
  block_closed l = true ->
  forall pc skip A, (skip <= length l)%nat ->
    (exists pc' v, exec d l pc skip A = Returned pc' v /\ returns_at l pc pc' v) \/
    (exists A', exec d l pc skip A = FellOff (pc + length l) 0 A').
Proof.
  induction l as [|i rest IH]; intros Hc pc skip A Hs.
  - right. cbn [length] in *. exists A. cbn [exec].
    replace skip with 0%nat by lia. f_equal. lia.
  - cbn [block_closed] in Hc. apply andb_true_iff in Hc as [Hi Hrest].
    specialize (IH Hrest). cbn [exec length] in *.
    assert (Hshift : forall s A0, (s <= length rest)%nat ->
      (exists pc' v, exec d rest (S pc) s A0 = Returned pc' v /\
                     returns_at (i :: rest) pc pc' v) \/
      (exists A', exec d rest (S pc) s A0 = FellOff (pc + S (length rest)) 0 A')).
    { intros s A0 Hle. destruct (IH (S pc) s A0 Hle) as [(pc' & v & He & Hr)|[A' He]].
      - left. exists pc', v. split; [exact He|].
        destruct Hr as (j & Hj & Hb & Hcode & Hk). exists j.
        split; [|split; [lia|split; assumption]].
        replace (pc' - pc)%nat with (S (pc' - S pc)) by lia. exact Hj.
      - right. exists A'. rewrite He. f_equal. lia. }
    destruct skip as [|n]; [|apply Hshift; lia].
    destruct (step_closed d i A (length rest) Hi) as [(A' & s & -> & Hle)|[-> Hcode]].
    + apply Hshift; exact Hle.
    + left. exists pc, (k i). split; [reflexivity|].
      exists i. rewrite Nat.sub_diag. split; [reflexivity|]. split; [lia|].
      split; [exact Hcode | reflexivity].
Qed.

Lemma exec_relocate d (l : list sock_filter) n pc skip A :
  exec d l (n + pc) skip A = relocate n (exec d l pc skip A).
Proof.
  revert pc skip A. induction l as [|i rest IH]; intros pc skip A; [reflexivity|].
  cbn [exec]. replace (S (n + pc)) with (n + S pc)%nat by lia.
  destruct skip as [|m]; [|apply IH].
  destruct (step d i A); [apply IH | reflexivity | reflexivity].
Qed.

Lemma step_ld_arch d A : step d ld_arch A = Continue (arch d) 0.
Proof. reflexivity. Qed.

Lemma step_jeq d tag t A :
  step d (jeq tag t) A = Continue A (Z.to_nat (if A =? tag then t else 0)).
Proof. unfold step, branch. cbn. destruct (A =? tag); reflexivity. Qed.

(** Under any tag but the two gated ones the gate returns at its own
    trap, whatever follows it. *)
Lemma evaluate_gate_default d t (rest : list sock_filter) :
  arch d <> AUDIT_ARCH_AARCH64 -> arch d <> AUDIT_ARCH_ARM ->
  evaluate (gate 2 t ++ rest) d = Returned 3 SECCOMP_RET_TRAP.
Proof.
  intros H64 H32. unfold evaluate, gate. cbn [app exec].
  rewrite step_ld_arch, step_jeq.
  destruct (Z.eqb_spec (arch d) AUDIT_ARCH_AARCH64) as [|_]; [contradiction|].
  cbn [Z.to_nat]. rewrite step_jeq.
  destruct (Z.eqb_spec (arch d) AUDIT_ARCH_ARM) as [|_]; [contradiction|].
  reflexivity.
Qed.

(** Under the 64-bit tag control passes over the 32-bit branch and the
    trap and enters what follows the gate. *)
Lemma evaluate_gate_64 d t (rest : list sock_filter) :
  arch d = AUDIT_ARCH_AARCH64 ->
  evaluate (gate 2 t ++ rest) d = exec d rest 4 0 (arch d).
Proof.
  intros H64. unfold evaluate, gate. cbn [app exec].
  rewrite step_ld_arch, step_jeq, H64, Z.eqb_refl. reflexivity.
Qed.

(** Under the 32-bit tag control passes over [t] instructions after the
    32-bit branch. *)
Lemma evaluate_gate_32 d t (rest : list sock_filter) :
  arch d = AUDIT_ARCH_ARM ->
  evaluate (gate 2 t ++ rest) d = exec d (trap :: rest) 3 (Z.to_nat t) (arch d).
Proof.
  intros H32. unfold evaluate, gate. cbn [app exec].
  rewrite step_ld_arch, step_jeq, H32. cbn [Z.eqb AUDIT_ARCH_ARM AUDIT_ARCH_AARCH64 Z.to_nat].
  rewrite step_jeq, Z.eqb_refl. reflexivity.
Qed.

Section Evaluation.

Variables a64 a32 : list sock_filter.

Lemma length_layout :
  length (layout a64 a32) = (8 + length a64 + length a32)%nat.
Proof.
  unfold layout, gate. repeat (rewrite ?length_app; cbn [app length]). lia.
Qed.

(** The 64-bit section of the finished program. *)
Lemma evaluate_layout_64 d :
  arch d = AUDIT_ARCH_AARCH64 ->
  evaluate (layout a64 a32) d =
  match relocate 5 (exec d a64 0 0 (nr d)) with
  | FellOff pc' skip' A' => exec d (trap :: ld_nr :: a32 ++ [trap]) pc' skip' A'
  | r => r
  end.
Proof.
  intros H64. unfold layout. rewrite evaluate_gate_64 by exact H64.
  cbn [app]. rewrite exec_ld_nr, exec_app.
  rewrite <- (exec_relocate d a64 5 0 0). reflexivity.
Qed.

(** The 32-bit section of the finished program: the patched branch
    lands on its first instruction. *)
Lemma evaluate_layout_32 d :
  arch d = AUDIT_ARCH_ARM ->
  evaluate (layout a64 a32) d =
  exec d (ld_nr :: a32 ++ [trap]) (6 + length a64) 0 (arch d).
Proof.
  intros H32. unfold layout. rewrite evaluate_gate_32 by exact H32.
  replace (Z.to_nat (size a64 + 3)) with (length ([trap; ld_nr] ++ a64 ++ [trap]))
    by (rewrite length_app, length_app; cbn [length]; unfold size; lia).
  replace (trap :: [ld_nr] ++ a64 ++ [trap] ++ [ld_nr] ++ a32 ++ [trap])
    with (([trap; ld_nr] ++ a64 ++ [trap]) ++ (ld_nr :: a32 ++ [trap]))
    by (cbn [app]; rewrite <- app_assoc; reflexivity).
  rewrite exec_app, exec_pass by lia.
  rewrite Nat.sub_diag. f_equal.
  rewrite length_app, length_app. cbn [length]. lia.
Qed.

End Evaluation.

(** The spec's scenario: the 64-bit block allows syscall 5 and nothing
    else, the 32-bit block allows nothing. *)
Example scenario_allow_5 :
  let block64 := [BPF_JUMP JEQ_K 5 0 1; allow] in
  let prog := layout block64 [] in
  set_seccomp_filter (fun _ => 0) block64 [] boot =
    Done true {| vec := prog; calls := [fprog prog] |} /\
  evaluate prog {| nr := 5; arch := AUDIT_ARCH_AARCH64 |}
    = Returned 6 SECCOMP_RET_ALLOW /\
  evaluate prog {| nr := 6; arch := AUDIT_ARCH_AARCH64 |}
    = Returned 7 SECCOMP_RET_TRAP /\
  evaluate prog {| nr := 5; arch := AUDIT_ARCH_ARM |}
    = Returned 9 SECCOMP_RET_TRAP.
Proof. repeat split. Qed.

(** ** The evaluator and the program counter *)

(** The one-pass evaluation of the instructions that follow [pre] agrees
    with the program-counter machine started [skip] instructions after
    them, given fuel for each of them. *)
Lemma run_exec d (l pre : list sock_filter) (skip fuel : nat) A :
  (length l < fuel)%nat ->
  run fuel d (pre ++ l) (length pre + skip) A = Some (exec d l (length pre) skip A).
Proof.
  revert pre skip fuel A.
  induction l as [|i rest IH]; intros pre skip fuel A Hfuel.
  - destruct fuel as [|fuel]; [cbn [length] in Hfuel; lia|].
    cbn [run exec]. rewrite app_nil_r.
    rewrite lookup_ge_None_2 by lia.
    do 2 f_equal. lia.
  - cbn [length] in Hfuel.
    assert (Hnext : forall f s A0, (length rest < f)%nat ->
      run f d (pre ++ i :: rest) (S (length pre) + s) A0 =
      Some (exec d rest (S (length pre)) s A0)).
    { intros f s A0 Hf.
      replace (pre ++ i :: rest) with ((pre ++ [i]) ++ rest)
        by (rewrite <- app_assoc; reflexivity).
      replace (S (length pre)) with (length (pre ++ [i]))
        by (rewrite length_app; cbn [length]; lia).
      apply IH. exact Hf. }
    destruct skip as [|n].
    + destruct fuel as [|fuel]; [lia|].
      cbn [run exec]. rewrite Nat.add_0_r.
      rewrite lookup_app_r by lia. rewrite Nat.sub_diag. cbn [lookup list_lookup].
      destruct (step d i A) as [A' s| |];
        [apply Hnext; lia | reflexivity | reflexivity].
    + cbn [exec]. rewrite <- (Hnext fuel n A) by lia.
      f_equal. lia.
Qed.

(** Evaluation of a whole program is the run of the program-counter
    machine from index 0, which ends within one step per instruction. *)
Lemma run_evaluate d (prog : list sock_filter) :
  run (S (length prog)) d prog 0 0 = Some (evaluate prog d).
Proof. apply (run_exec d prog [] 0). lia. Qed.

(** ** The jump patcher *)

(** C2: for a patch index inside the program,
    [SetValidateArchitectureJumpTarget] computes the distance
    [size - offset - 1]; it returns -1 exactly when the distance exceeds
    255, leaving the program as it was; otherwise it returns 0 and the
    instruction at the patch index becomes the branch on [AUDIT_ARCH_ARM]
    whose true offset is the distance itself and whose false offset is 0,
    so that the false branch continues with the next instruction. *)
Theorem SetValidateArchitectureJumpTarget_distance (offset : Z) (w : world) :
  0 <= offset < size (vec w) ->
  size (vec w) <= 2 ^ 64 ->
  let distance := size (vec w) - offset - 1 in
  let patched := {| code := 0x15; jt := distance; jf := 0; k := AUDIT_ARCH_ARM |} in
  ((exists w', SetValidateArchitectureJumpTarget offset w = Done (-1) w')
     <-> 255 < distance) /\
  (255 < distance -> SetValidateArchitectureJumpTarget offset w = Done (-1) w) /\
  (distance <= 255 ->
     SetValidateArchitectureJumpTarget offset w =
       Done 0 {| vec := <[Z.to_nat offset := patched]> (vec w); calls := calls w |} /\
     (<[Z.to_nat offset := patched]> (vec w) : filter) !! Z.to_nat offset
       = Some patched /\
     forall d A,
       step d patched A =
       Continue A (if A =? AUDIT_ARCH_ARM then Z.to_nat distance else 0%nat)).
Proof.
  intros Hoff Hsz distance patched.
  rewrite SetValidateArchitectureJumpTarget_unfold. cbn zeta.
  rewrite (to_size_t_id (size (vec w) - offset - 1)) by lia.
  fold distance.
  replace ((0 <=? offset) && (offset <? size (vec w))) with true
    by (symmetry; apply andb_true_iff; split; [apply Z.leb_le | apply Z.ltb_lt]; lia).
  destruct (Z.ltb_spec 255 distance) as [Hlt|Hle].
  - split; [split; [intros _; exact Hlt | intros _; exists w; reflexivity]|].
    split; [reflexivity | lia].
  - split; [split; [intros [w' H]; discriminate H | lia]|].
    split; [lia|]. intros _. split; [reflexivity|]. split.
    + apply list_lookup_insert_eq. unfold size in Hoff. lia.
    + intros d A. unfold patched. fold (jeq AUDIT_ARCH_ARM distance).
      rewrite step_jeq. destruct (A =? AUDIT_ARCH_ARM); reflexivity.
Qed.

Lemma SetValidateArchitectureJumpTarget_distance_witness :
  let w := {| vec := front [allow]; calls := [] |} in
  0 <= 2 < size (vec w) /\ size (vec w) <= 2 ^ 64 /\
  SetValidateArchitectureJumpTarget 2 w =
    Done 0 {| vec := gate 2 4 ++ [ld_nr; allow; trap]; calls := [] |}.
Proof.
  cbn zeta.
  assert (H1 : 0 <= 2 < size (vec {| vec := front [allow]; calls := [] |}))
    by (unfold size; simpl; lia).
  assert (H2 : size (vec {| vec := front [allow]; calls := [] |}) <= 2 ^ 64)
    by (unfold size; simpl; lia).
  split; [exact H1|]. split; [exact H2|].
  destruct (SetValidateArchitectureJumpTarget_distance 2 _ H1 H2) as (_ & _ & H).
  destruct H as [H _]; [unfold size; simpl; lia|].
  exact H.
Defined.

(** C10: where [SetValidateArchitectureJumpTarget] returns at all (and it
    does for every patch index inside the program) the program keeps its
    length, every instruction but the one at the patch index is as before,
    and nothing is handed to the kernel; when it returns -1 the whole state
    is as before. *)
Theorem SetValidateArchitectureJumpTarget_frame (offset : Z) (w : world) :
  (0 <= offset < size (vec w) ->
   exists rc w', SetValidateArchitectureJumpTarget offset w = Done rc w') /\
  (forall rc w',
     SetValidateArchitectureJumpTarget offset w = Done rc w' ->
     (rc = -1 \/ rc = 0) /\
     length (vec w') = length (vec w) /\
     calls w' = calls w /\
     (rc = -1 -> w' = w) /\
     (forall i : nat, i <> Z.to_nat offset -> vec w' !! i = vec w !! i)).
Proof.
  rewrite SetValidateArchitectureJumpTarget_unfold. cbn zeta.
  destruct (255 <? to_size_t (size (vec w) - offset - 1)).
  - split; [eauto|]. intros rc w' [= <- <-].
    repeat split; auto.
  - split.
    + intros Hoff.
      replace ((0 <=? offset) && (offset <? size (vec w))) with true
        by (symmetry; apply andb_true_iff; split;
            [apply Z.leb_le | apply Z.ltb_lt]; lia).
      eauto.
    + destruct ((0 <=? offset) && (offset <? size (vec w))); [|discriminate].
      intros rc w' [= <- <-]. cbn [vec calls].
      split; [auto|]. split; [apply length_insert|]. split; [reflexivity|].
      split; [discriminate|].
      intros i Hi. apply list_lookup_insert_ne. congruence.
Qed.

Lemma SetValidateArchitectureJumpTarget_frame_witness :
  let w := {| vec := front [allow]; calls := [] |} in
  exists rc w',
    SetValidateArchitectureJumpTarget 2 w = Done rc w' /\
    length (vec w') = length (vec w) /\
    vec w' !! 5%nat = Some allow.
Proof.
  cbn zeta.
  destruct (SetValidateArchitectureJumpTarget_frame 2
              {| vec := front [allow]; calls := [] |}) as [Hdef Hframe].
  destruct Hdef as (rc & w' & Hrun); [unfold size; simpl; lia|].
  destruct (Hframe rc w' Hrun) as (_ & Hlen & _ & _ & Hother).
  exists rc, w'. split; [exact Hrun|]. split; [exact Hlen|].
  rewrite (Hother 5%nat); [reflexivity | discriminate].
Defined.

(** ** The architecture gate *)

(** C3, as stated, fails: the true-branch offset of the 64-bit branch is
    not 1. *)
Lemma gate_skip_one_counterexample : ~ gate_emits 1 boot.
Proof.
  intros [placeholder H].
  rewrite ValidateArchitectureAndJumpIfNeeded_done in H.
  discriminate H.
Qed.

(** C3, amended: the gate appends, in order, the load of the architecture
    tag, the branch on the 64-bit tag with true offset 2, the branch on the
    32-bit tag with placeholder offset 1, and the trap, and returns the
    index of the 32-bit branch, which the trap follows. Under the 64-bit
    tag control passes over two instructions, the 32-bit branch and the
    trap, and leaves the gate at its end. *)
Theorem ValidateArchitectureAndJumpIfNeeded_emits (w : world) :
  size (vec w) + 2 < 2 ^ 64 ->
  let patch := size (vec w) + 2 in
  let f := vec w ++ [ld_arch; jeq AUDIT_ARCH_AARCH64 2; jeq AUDIT_ARCH_ARM 1; trap] in
  ValidateArchitectureAndJumpIfNeeded w = Done patch {| vec := f; calls := calls w |} /\
  gate_emits 2 w /\
  f !! Z.to_nat patch = Some (jeq AUDIT_ARCH_ARM 1) /\
  f !! Z.to_nat (patch + 1) = Some trap /\
  (forall d, arch d = AUDIT_ARCH_AARCH64 ->
     exec d (gate 2 1) 0 0 0 = FellOff 4 0 (arch d)) /\
  (forall d, arch d <> AUDIT_ARCH_AARCH64 -> arch d <> AUDIT_ARCH_ARM ->
     exec d (gate 2 1) 0 0 0 = Returned 3 SECCOMP_RET_TRAP).
Proof.
  intros Hsz patch f.
  pose proof (size_nonneg (vec w)) as Hnn.
  assert (Hrun : ValidateArchitectureAndJumpIfNeeded w =
                 Done patch {| vec := f; calls := calls w |}).
  { rewrite ValidateArchitectureAndJumpIfNeeded_done.
    rewrite to_size_t_id by lia. reflexivity. }
  split; [exact Hrun|]. split; [exists 1; exact Hrun|].
  unfold f, patch, size in *.
  split.
  { rewrite lookup_app_r by lia.
    replace (Z.to_nat (Z.of_nat (length (vec w)) + 2) - length (vec w))%nat
      with 2%nat by lia. reflexivity. }
  split.
  { rewrite lookup_app_r by lia.
    replace (Z.to_nat (Z.of_nat (length (vec w)) + 2 + 1) - length (vec w))%nat
      with 3%nat by lia. reflexivity. }
  split.
  - intros d H64. pose proof (evaluate_gate_64 d 1 [] H64) as H.
    rewrite app_nil_r in H. exact H.
  - intros d H64 H32. pose proof (evaluate_gate_default d 1 [] H64 H32) as H.
    rewrite app_nil_r in H. exact H.
Qed.

Lemma ValidateArchitectureAndJumpIfNeeded_emits_witness :
  size (vec boot) + 2 < 2 ^ 64 /\
  ValidateArchitectureAndJumpIfNeeded boot =
  Done 2 {| vec := [ld_arch; jeq AUDIT_ARCH_AARCH64 2; jeq AUDIT_ARCH_ARM 1; trap];
            calls := [] |}.
Proof.
  assert (H : size (vec boot) + 2 < 2 ^ 64) by (unfold size; simpl; lia).
  split; [exact H|].
  exact (proj1 (ValidateArchitectureAndJumpIfNeeded_emits boot H)).
Defined.

(** ** The entry point *)

(** When the kernel rejects the program, [install_filter] returns [false]
    and [Seccomp_setPolicy] calls [exit(1)]. *)
Lemma Seccomp_setPolicy_exits_when_rejected prctl a64 a32 defined_arm w :
  size a64 <= 252 ->
  prctl (fprog (layout a64 a32)) < 0 ->
  Seccomp_setPolicy prctl a64 a32 defined_arm true w =
  Exit 1 {| vec := layout a64 a32;
            calls := calls w ++ [fprog (layout a64 a32)] |}.
Proof.
  intros Hn Hrej. unfold Seccomp_setPolicy. rewrite orb_true_r.
  erewrite bind_done by (apply set_seccomp_filter_fits; exact Hn).
  apply Z.ltb_lt in Hrej. rewrite Hrej. reflexivity.
Qed.

(** When the kernel accepts the program, [Seccomp_setPolicy] returns. *)
Lemma Seccomp_setPolicy_returns_when_accepted prctl a64 a32 defined_arm w :
  size a64 <= 252 ->
  0 <= prctl (fprog (layout a64 a32)) ->
  Seccomp_setPolicy prctl a64 a32 defined_arm true w =
  Done tt {| vec := layout a64 a32;
             calls := calls w ++ [fprog (layout a64 a32)] |}.
Proof.
  intros Hn Hacc. unfold Seccomp_setPolicy. rewrite orb_true_r.
  erewrite bind_done by (apply set_seccomp_filter_fits; exact Hn).
  apply Z.ltb_ge in Hacc. rewrite Hacc. reflexivity.
Qed.

(** C1: with a 64-bit policy block of 253 instructions the jump distance
    is 256 and [SetValidateArchitectureJumpTarget] returns -1; yet
    [set_seccomp_filter], declared [bool], returns [true] for its
    [return -1], and [Seccomp_setPolicy] returns normally with nothing
    handed to the kernel. *)
Theorem Seccomp_setPolicy_jump_failure_returns
    (prctl : sock_fprog -> Z) (a32 : list sock_filter) (w : world) :
  let a64 := repeat allow 253 in
  let stuck := {| vec := front a64; calls := calls w |} in
  SetValidateArchitectureJumpTarget 2 stuck = Done (-1) stuck /\
  set_seccomp_filter prctl a64 a32 w = Done true stuck /\
  Seccomp_setPolicy prctl a64 a32 false true w = Done tt stuck.
Proof.
  intros a64 stuck.
  assert (Hsize : size a64 = 253) by reflexivity.
  assert (Hrun : set_seccomp_filter prctl a64 a32 w = Done true stuck).
  { apply set_seccomp_filter_too_long. rewrite Hsize. lia. }
  split; [|split; [exact Hrun|]].
  - rewrite SetValidateArchitectureJumpTarget_unfold. unfold stuck. cbn [vec].
    rewrite size_front, Hsize. reflexivity.
  - unfold Seccomp_setPolicy. cbn [orb].
    erewrite bind_done by exact Hrun. reflexivity.
Qed.

(** C9: compiled for neither [__arm__] nor [__aarch64__],
    [Seccomp_setPolicy] returns with the state as it found it: no vector
    is built and nothing is handed to the kernel. *)
Theorem Seccomp_setPolicy_other_architecture
    (prctl : sock_fprog -> Z) (a64 a32 : list sock_filter) (w : world) :
  Seccomp_setPolicy prctl a64 a32 false false w = Done tt w /\
  submitted (Seccomp_setPolicy prctl a64 a32 false false w) w = [].
Proof.
  split; [reflexivity|]. cbn [Seccomp_setPolicy orb ret submitted].
  apply drop_all.
Qed.

(** ** The finished program *)

Lemma layout_lookup_64 a64 a32 (j : nat) i :
  a64 !! j = Some i -> layout a64 a32 !! (5 + j)%nat = Some i.
Proof.
  intros H. unfold layout, gate. cbn [app Nat.add].
  change ((a64 ++ trap :: ld_nr :: a32 ++ [trap]) !! j = Some i).
  apply lookup_app_l_Some. exact H.
Qed.

Lemma layout_lookup_trap64 a64 a32 :
  layout a64 a32 !! (5 + length a64)%nat = Some trap.
Proof.
  unfold layout, gate. cbn [app Nat.add].
  change ((a64 ++ trap :: ld_nr :: a32 ++ [trap]) !! length a64 = Some trap).
  rewrite lookup_app_r by lia. rewrite Nat.sub_diag. reflexivity.
Qed.

Lemma layout_lookup_ld32 a64 a32 :
  layout a64 a32 !! (6 + length a64)%nat = Some ld_nr.
Proof.
  unfold layout, gate. cbn [app Nat.add].
  change ((a64 ++ trap :: ld_nr :: a32 ++ [trap]) !! S (length a64) = Some ld_nr).
  rewrite lookup_app_r by lia.
  replace (S (length a64) - length a64)%nat with 1%nat by lia. reflexivity.
Qed.

Lemma layout_lookup_32 a64 a32 (j : nat) i :
  a32 !! j = Some i -> layout a64 a32 !! (7 + length a64 + j)%nat = Some i.
Proof.
  intros H. unfold layout, gate. cbn [app Nat.add].
  change ((a64 ++ trap :: ld_nr :: a32 ++ [trap]) !! S (S (length a64 + j)) = Some i).
  rewrite lookup_app_r by lia.
  replace (S (S (length a64 + j)) - length a64)%nat with (S (S j)) by lia.
  change ((a32 ++ [trap]) !! j = Some i).
  apply lookup_app_l_Some. exact H.
Qed.

Lemma layout_lookup_trap32 a64 a32 :
  layout a64 a32 !! (7 + length a64 + length a32)%nat = Some trap.
Proof.
  unfold layout, gate. cbn [app Nat.add].
  change ((a64 ++ trap :: ld_nr :: a32 ++ [trap]) !! S (S (length a64 + length a32))
          = Some trap).
  rewrite lookup_app_r by lia.
  replace (S (S (length a64 + length a32)) - length a64)%nat
    with (S (S (length a32))) by lia.
  change ((a32 ++ [trap]) !! length a32 = Some trap).
  rewrite lookup_app_r by lia. rewrite Nat.sub_diag. reflexivity.
Qed.

(** C4: whatever the two policy blocks, under an architecture tag other
    than [AUDIT_ARCH_AARCH64] and [AUDIT_ARCH_ARM] and any syscall number,
    evaluation of the program [set_seccomp_filter] builds returns
    [SECCOMP_RET_TRAP] at index 3, the trap of the gate. *)
Theorem evaluate_other_architecture_traps
    (prctl : sock_fprog -> Z) (a64 a32 : list sock_filter) (w : world)
    (d : seccomp_data) :
  arch d <> AUDIT_ARCH_AARCH64 ->
  arch d <> AUDIT_ARCH_ARM ->
  exists ok w',
    set_seccomp_filter prctl a64 a32 w = Done ok w' /\
    (size a64 <= 252 ->
     vec w' = layout a64 a32 /\ calls w' = calls w ++ [fprog (vec w')]) /\
    vec w' !! 3%nat = Some trap /\
    evaluate (vec w') d = Returned 3 SECCOMP_RET_TRAP.
Proof.
  intros H64 H32. rewrite set_seccomp_filter_unfold. cbn zeta.
  pose proof (size_nonneg a64) as Hnn.
  destruct (Z.ltb_spec 255 (to_size_t (size a64 + 3))) as [Hlong|Hfit].
  - eexists _, _. split; [reflexivity|]. cbn [vec calls].
    split.
    { intros Hn. rewrite to_size_t_id in Hlong by lia. lia. }
    split; [reflexivity|].
    unfold front. apply evaluate_gate_default; assumption.
  - eexists _, _. split; [reflexivity|]. cbn [vec calls].
    split.
    { intros Hn. rewrite to_size_t_id by lia. split; reflexivity. }
    split; [reflexivity|].
    apply evaluate_gate_default; assumption.
Qed.

Lemma evaluate_other_architecture_traps_witness :
  let d := {| nr := 5; arch := 0xC000003E |} in
  arch d <> AUDIT_ARCH_AARCH64 /\ arch d <> AUDIT_ARCH_ARM /\
  exists ok w',
    set_seccomp_filter (fun _ => 0) [allow] [allow] boot = Done ok w' /\
    evaluate (vec w') d = Returned 3 SECCOMP_RET_TRAP.
Proof.
  cbn zeta.
  assert (H64 : arch {| nr := 5; arch := 0xC000003E |} <> AUDIT_ARCH_AARCH64)
    by discriminate.
  assert (H32 : arch {| nr := 5; arch := 0xC000003E |} <> AUDIT_ARCH_ARM)
    by discriminate.
  split; [exact H64|]. split; [exact H32|].
  destruct (evaluate_other_architecture_traps (fun _ => 0) [allow] [allow] boot
              _ H64 H32) as (ok & w' & Hrun & _ & _ & Heval).
  exists ok, w'. split; [exact Hrun | exact Heval].
Defined.

(** C5: the loop over a policy block followed by [Trap] appends the block
    as it is and one trap after it; the finished program is the gate, the
    load of the syscall number, the 64-bit block, a trap, the load of the
    syscall number, the 32-bit block and a trap, and nothing else. When a
    block falls through on a syscall, evaluation under the tag of that
    block returns [SECCOMP_RET_TRAP] at the trap that follows the block. *)
Theorem policy_blocks_embedded_and_capped
    (prctl : sock_fprog -> Z) (a64 a32 : list sock_filter) (w : world) :
  size a64 <= 252 ->
  (forall (block : list sock_filter) (w0 : world),
     (push_all block ;;; Trap) w0 =
     Done tt {| vec := vec w0 ++ block ++ [trap]; calls := calls w0 |}) /\
  exists ok w',
    set_seccomp_filter prctl a64 a32 w = Done ok w' /\
    vec w' = gate 2 (size a64 + 3) ++ [ld_nr] ++ a64 ++ [trap]
                  ++ [ld_nr] ++ a32 ++ [trap] /\
    calls w' = calls w ++ [fprog (vec w')] /\
    (forall d, arch d = AUDIT_ARCH_AARCH64 -> falls_through a64 d ->
       evaluate (vec w') d = Returned (5 + length a64) SECCOMP_RET_TRAP) /\
    (forall d, arch d = AUDIT_ARCH_ARM -> falls_through a32 d ->
       evaluate (vec w') d =
       Returned (7 + length a64 + length a32) SECCOMP_RET_TRAP).
Proof.
  intros Hn. split.
  { intros block w0. erewrite bind_done by apply push_all_done.
    rewrite Trap_done. cbn [vec calls]. rewrite <- app_assoc. reflexivity. }
  eexists _, _. split; [apply set_seccomp_filter_fits; exact Hn|].
  cbn [vec calls]. split; [reflexivity|]. split; [reflexivity|]. split.
  - intros d H64 [A Hfall]. rewrite evaluate_layout_64 by exact H64.
    rewrite Hfall. cbn [relocate exec]. reflexivity.
  - intros d H32 [A Hfall]. rewrite evaluate_layout_32 by exact H32.
    rewrite exec_ld_nr, exec_app.
    replace (S (6 + length a64)) with (7 + length a64 + 0)%nat by lia.
    rewrite exec_relocate, Hfall. cbn [relocate exec]. reflexivity.
Qed.

Lemma policy_blocks_embedded_and_capped_witness :
  let block := [BPF_JUMP JEQ_K 5 0 1; allow] in
  let d := {| nr := 6; arch := AUDIT_ARCH_AARCH64 |} in
  size block <= 252 /\
  falls_through block d /\
  exists ok w',
    set_seccomp_filter (fun _ => 0) block block boot = Done ok w' /\
    evaluate (vec w') d = Returned 7 SECCOMP_RET_TRAP.
Proof.
  cbn zeta.
  assert (Hn : size [BPF_JUMP JEQ_K 5 0 1; allow] <= 252)
    by (unfold size; simpl; lia).
  assert (Hfall : falls_through [BPF_JUMP JEQ_K 5 0 1; allow]
                    {| nr := 6; arch := AUDIT_ARCH_AARCH64 |})
    by (exists 6; reflexivity).
  split; [exact Hn|]. split; [exact Hfall|].
  destruct (policy_blocks_embedded_and_capped (fun _ => 0)
              [BPF_JUMP JEQ_K 5 0 1; allow] [BPF_JUMP JEQ_K 5 0 1; allow] boot Hn)
    as (_ & ok & w' & Hrun & _ & _ & H64 & _).
  exists ok, w'. split; [exact Hrun|].
  exact (H64 {| nr := 6; arch := AUDIT_ARCH_AARCH64 |} eq_refl Hfall).
Defined.

(** C6: in the finished program the instruction at the patch index 2 is
    the branch on [AUDIT_ARCH_ARM]; its true offset is the number of
    instructions of the 64-bit section plus the gate's trap, so the index
    [2 + 1 + jt] it transfers control to is that of the load of the
    syscall number emitted right after the trap of the 64-bit section, and
    evaluation under the 32-bit tag continues there. *)
Theorem patched_branch_enters_32bit_section
    (prctl : sock_fprog -> Z) (a64 a32 : list sock_filter) (w : world) :
  size a64 <= 252 ->
  exists ok w' branch,
    set_seccomp_filter prctl a64 a32 w = Done ok w' /\
    vec w' !! 2%nat = Some branch /\
    code branch = JEQ_K /\ k branch = AUDIT_ARCH_ARM /\
    jt branch = size a64 + 3 /\ jf branch = 0 /\
    2 + 1 + jt branch = size (front a64) /\
    vec w' !! Z.to_nat (2 + jt branch) = Some trap /\
    vec w' !! Z.to_nat (2 + 1 + jt branch) = Some ld_nr /\
    drop (Z.to_nat (2 + 1 + jt branch)) (vec w') = [ld_nr] ++ a32 ++ [trap] /\
    (forall d, arch d = AUDIT_ARCH_ARM ->
       evaluate (vec w') d =
       exec d ([ld_nr] ++ a32 ++ [trap]) (Z.to_nat (2 + 1 + jt branch)) 0 (arch d)).
Proof.
  intros Hn. pose proof (size_nonneg a64) as Hnn.
  eexists _, _, (jeq AUDIT_ARCH_ARM (size a64 + 3)).
  split; [apply set_seccomp_filter_fits; exact Hn|]. cbn [vec calls].
  split; [reflexivity|]. do 4 (split; [reflexivity|]).
  cbn [jeq jt]. rewrite size_front.
  split; [lia|].
  replace (Z.to_nat (2 + (size a64 + 3))) with (5 + length a64)%nat
    by (unfold size; lia).
  replace (Z.to_nat (2 + 1 + (size a64 + 3))) with (6 + length a64)%nat
    by (unfold size; lia).
  split; [apply layout_lookup_trap64|].
  split; [apply layout_lookup_ld32|].
  split.
  - unfold layout, gate. cbn [app Nat.add drop].
    change (drop (S (length a64)) (a64 ++ trap :: ld_nr :: a32 ++ [trap])
            = ld_nr :: a32 ++ [trap]).
    rewrite drop_app_ge by lia.
    replace (S (length a64) - length a64)%nat with 1%nat by lia. reflexivity.
  - intros d H32. apply evaluate_layout_32. exact H32.
Qed.

Lemma patched_branch_enters_32bit_section_witness :
  size [allow; allow] <= 252 /\
  exists ok w' branch,
    set_seccomp_filter (fun _ => 0) [allow; allow] [allow] boot = Done ok w' /\
    vec w' !! 2%nat = Some branch /\
    jt branch = 5 /\
    vec w' !! Z.to_nat (2 + 1 + jt branch) = Some ld_nr.
Proof.
  assert (Hn : size [allow; allow] <= 252) by (unfold size; simpl; lia).
  split; [exact Hn|].
  destruct (patched_branch_enters_32bit_section (fun _ => 0) [allow; allow] [allow]
              boot Hn)
    as (ok & w' & branch & Hrun & Hb & _ & _ & Hjt & _ & _ & _ & Hld & _).
  exists ok, w', branch.
  split; [exact Hrun|]. split; [exact Hb|]. split; [exact Hjt | exact Hld].
Defined.

(** C7, as stated, fails: with an empty 64-bit block and a 32-bit block
    whose only instruction branches over one instruction, the program is
    built and handed to the kernel, and its evaluation under the 32-bit
    tag passes over the last trap and leaves the program at its end. *)
Lemma evaluation_falls_off_counterexample :
  let a32 := [BPF_JUMP JEQ_K 7 1 0] in
  let d := {| nr := 7; arch := AUDIT_ARCH_ARM |} in
  exists w',
    set_seccomp_filter (fun _ => 0) [] a32 boot = Done true w' /\
    calls w' = [fprog (vec w')] /\
    evaluate (vec w') d = FellOff (length (vec w')) 0 7 /\
    ~ exists pc v, evaluate (vec w') d = Returned pc v.
Proof.
  cbn zeta. eexists. split; [reflexivity|]. cbn [vec calls].
  split; [reflexivity|]. split; [reflexivity|].
  intros (pc & v & H). discriminate H.
Qed.

(** C7, amended: when both policy blocks are closed (every instruction is
    a load of the syscall number or of the architecture tag, a return, or
    a jump that lands inside its block or on the instruction just after
    it), the evaluation of the finished program against any architecture
    tag and syscall number ends at a return instruction of the program,
    with that instruction's value; the program-counter machine reaches that
    return within one step per instruction. *)
Theorem evaluation_reaches_a_return
    (prctl : sock_fprog -> Z) (a64 a32 : list sock_filter) (w : world) :
  size a64 <= 252 ->
  block_closed a64 = true ->
  block_closed a32 = true ->
  exists ok w',
    set_seccomp_filter prctl a64 a32 w = Done ok w' /\
    calls w' = calls w ++ [fprog (vec w')] /\
    forall d, exists pc v i,
      evaluate (vec w') d = Returned pc v /\
      run (S (length (vec w'))) d (vec w') 0 0 = Some (Returned pc v) /\
      vec w' !! pc = Some i /\ code i = Z.lor BPF_RET BPF_K /\ k i = v.
Proof.
  intros Hn Hc64 Hc32.
  eexists _, _. split; [apply set_seccomp_filter_fits; exact Hn|].
  cbn [vec calls]. split; [reflexivity|]. intros d.
  enough (exists pc v i,
            evaluate (layout a64 a32) d = Returned pc v /\
            layout a64 a32 !! pc = Some i /\
            code i = Z.lor BPF_RET BPF_K /\ k i = v)
    as (pc & v & i & Heval & Hrest).
  { exists pc, v, i. split; [exact Heval|].
    split; [rewrite run_evaluate, Heval; reflexivity | exact Hrest]. }
  destruct (Z.eq_dec (arch d) AUDIT_ARCH_AARCH64) as [H64|H64].
  { rewrite evaluate_layout_64 by exact H64.
    destruct (exec_closed d a64 Hc64 0%nat 0%nat (nr d) ltac:(lia))
      as [(pc & v & -> & i & Hi & _ & Hcode & Hk)|[A ->]].
    - exists (5 + pc)%nat, v, i. split; [reflexivity|].
      rewrite Nat.sub_0_r in Hi.
      split; [apply layout_lookup_64; exact Hi | split; assumption].
    - exists (5 + length a64)%nat, SECCOMP_RET_TRAP, trap.
      split; [reflexivity|]. split; [apply layout_lookup_trap64|].
      split; reflexivity. }
  destruct (Z.eq_dec (arch d) AUDIT_ARCH_ARM) as [H32|H32].
  { rewrite evaluate_layout_32 by exact H32.
    rewrite exec_ld_nr, exec_app.
    destruct (exec_closed d a32 Hc32 (S (6 + length a64)) 0%nat (nr d) ltac:(lia))
      as [(pc & v & -> & i & Hi & Hle & Hcode & Hk)|[A ->]].
    - exists pc, v, i. split; [reflexivity|].
      split; [|split; assumption].
      replace pc with (7 + length a64 + (pc - S (6 + length a64)))%nat at 1 by lia.
      apply layout_lookup_32. exact Hi.
    - exists (7 + length a64 + length a32)%nat, SECCOMP_RET_TRAP, trap.
      split; [reflexivity|]. split; [apply layout_lookup_trap32|].
      split; reflexivity. }
  exists 3%nat, SECCOMP_RET_TRAP, trap.
  split; [|split; [reflexivity | split; reflexivity]].
  unfold layout. apply evaluate_gate_default; assumption.
Qed.

Lemma evaluation_reaches_a_return_witness :
  let block := [BPF_JUMP JEQ_K 5 0 1; allow] in
  size block <= 252 /\ block_closed block = true /\
  exists ok w',
    set_seccomp_filter (fun _ => 0) block block boot = Done ok w' /\
    forall d, exists pc v i,
      evaluate (vec w') d = Returned pc v /\
      run (S (length (vec w'))) d (vec w') 0 0 = Some (Returned pc v) /\
      vec w' !! pc = Some i /\ code i = Z.lor BPF_RET BPF_K /\ k i = v.
Proof.
  cbn zeta.
  assert (Hn : size [BPF_JUMP JEQ_K 5 0 1; allow] <= 252)
    by (unfold size; simpl; lia).
  assert (Hc : block_closed [BPF_JUMP JEQ_K 5 0 1; allow] = true) by reflexivity.
  split; [exact Hn|]. split; [exact Hc|].
  destruct (evaluation_reaches_a_return (fun _ => 0)
              [BPF_JUMP JEQ_K 5 0 1; allow] [BPF_JUMP JEQ_K 5 0 1; allow] boot
              Hn Hc Hc) as (ok & w' & Hrun & _ & Heval).
  exists ok, w'. split; [exact Hrun | exact Heval].
Defined.

(** C8: the vector [set_seccomp_filter] builds and the program it hands to
    the kernel are functions of the two policy blocks alone: two runs, in
    whatever states and whatever the kernel answers, build the same
    instruction sequence; when the jump fits, that sequence is the gate,
    the two loads, the two blocks and the two traps, eight instructions
    more than the blocks. *)
Theorem set_seccomp_filter_deterministic
    (prctl1 prctl2 : sock_fprog -> Z) (a64 a32 : list sock_filter)
    (w1 w2 : world) :
  let run1 := set_seccomp_filter prctl1 a64 a32 w1 in
  let run2 := set_seccomp_filter prctl2 a64 a32 w2 in
  (exists prog, built run1 = Some prog /\ built run2 = Some prog /\
     (size a64 <= 252 ->
      prog = layout a64 a32 /\
      length prog = (8 + length a64 + length a32)%nat)) /\
  submitted run1 w1 = submitted run2 w2.
Proof.
  cbn zeta. rewrite !set_seccomp_filter_unfold. cbn zeta.
  pose proof (size_nonneg a64) as Hnn.
  destruct (Z.ltb_spec 255 (to_size_t (size a64 + 3))) as [Hlong|Hfit].
  - cbn [built submitted calls]. split.
    + eexists. split; [reflexivity|]. split; [reflexivity|].
      intros Hn. rewrite to_size_t_id in Hlong by lia. lia.
    + rewrite !drop_all. reflexivity.
  - cbn [built submitted calls vec]. split.
    + eexists. split; [reflexivity|]. split; [reflexivity|].
      intros Hn. rewrite to_size_t_id by lia.
      split; [reflexivity | apply length_layout].
    + rewrite !drop_app_length. reflexivity.
Qed.

(** ** Further properties of the installer and the entry point *)


Lemma submitted_one {A} (a : A) v before p :
  submitted (Done a {| vec := v; calls := calls before ++ [p] |}) before = [p].
Proof. cbn [submitted calls]. rewrite drop_app_length. reflexivity. Qed.

Lemma submitted_none {A} (a : A) v before :
  submitted (Done a {| vec := v; calls := calls before |}) before = [].
Proof. cbn [submitted calls]. apply drop_all. Qed.


(** X2: [set_seccomp_filter] always returns; it calls the kernel exactly
    when the 64-bit block has at most 252 instructions, once, with the
    finished program, and never otherwise; it returns [false] exactly when
    that call is made and rejected. *)
Theorem set_seccomp_filter_outcome
    (prctl : sock_fprog -> Z) (a64 a32 : list sock_filter) (w : world) :
  size a64 < 2 ^ 64 - 3 ->
  let run := set_seccomp_filter prctl a64 a32 w in
  let p := fprog (layout a64 a32) in
  exists ok w',
    run = Done ok w' /\
    (size a64 <= 252 -> submitted run w = [p] /\ vec w' = layout a64 a32) /\
    (252 < size a64 -> submitted run w = [] /\ vec w' = front a64) /\
    (ok = false <-> size a64 <= 252 /\ prctl p < 0).
Proof.
  intros Hsz run p. unfold run.
  destruct (Z.le_gt_cases (size a64) 252) as [Hfit|Hlong].
  - rewrite set_seccomp_filter_fits by exact Hfit. fold p.
    eexists _, _. split; [reflexivity|]. cbn [vec].
    split; [intros _; split; [apply submitted_one | reflexivity]|].
    split; [lia|].
    destruct (Z.ltb_spec (prctl p) 0); cbn [negb]; split;
      intros; try (reflexivity || discriminate); [split; lia | lia].
  - rewrite set_seccomp_filter_too_long by lia.
    eexists _, _. split; [reflexivity|]. cbn [vec].
    split; [lia|].
    split; [intros _; split; [apply submitted_none | reflexivity]|].
    split; [discriminate | lia].
Qed.

Lemma set_seccomp_filter_outcome_witness :
  size [allow] < 2 ^ 64 - 3 /\
  exists w',
    set_seccomp_filter (fun _ => -1) [allow] [allow] boot = Done false w' /\
    submitted (set_seccomp_filter (fun _ => -1) [allow] [allow] boot) boot
      = [fprog (layout [allow] [allow])].
Proof.
  assert (Hsz : size [allow] < 2 ^ 64 - 3) by (unfold size; simpl; lia).
  split; [exact Hsz|].
  destruct (set_seccomp_filter_outcome (fun _ => -1) [allow] [allow] boot Hsz)
    as (ok & w' & Hrun & Hfit & _ & Hok).
  exists w'. split.
  - rewrite Hrun. f_equal. apply Hok. split; [unfold size; simpl; lia | lia].
  - apply Hfit. unfold size; simpl; lia.
Defined.

(** X3: [Seccomp_setPolicy] calls [exit(1)] exactly when it is compiled
    for [__arm__] or [__aarch64__], the 64-bit block has at most 252
    instructions and the kernel rejects the finished program; in every
    other case it returns. *)
Theorem Seccomp_setPolicy_outcome
    (prctl : sock_fprog -> Z) (a64 a32 : list sock_filter)
    (defined_arm defined_aarch64 : bool) (w : world) :
  size a64 < 2 ^ 64 - 3 ->
  let run := Seccomp_setPolicy prctl a64 a32 defined_arm defined_aarch64 w in
  let fatal := (defined_arm || defined_aarch64)
               && (size a64 <=? 252)
               && (prctl (fprog (layout a64 a32)) <? 0) in
  if fatal then exists w', run = Exit 1 w'
  else exists w', run = Done tt w'.
Proof.
  intros Hsz run fatal. unfold run, fatal, Seccomp_setPolicy.
  destruct (defined_arm || defined_aarch64); cbn [andb]; [|eexists; reflexivity].
  destruct (Z.leb_spec (size a64) 252) as [Hfit|Hlong]; cbn [andb].
  - erewrite bind_done by (apply set_seccomp_filter_fits; exact Hfit).
    destruct (prctl (fprog (layout a64 a32)) <? 0); cbn [negb];
      eexists; reflexivity.
  - erewrite bind_done by (apply set_seccomp_filter_too_long; lia).
    eexists; reflexivity.
Qed.

Lemma Seccomp_setPolicy_outcome_witness :
  size [allow] < 2 ^ 64 - 3 /\
  exists w', Seccomp_setPolicy (fun _ => -1) [allow] [allow] true false boot
             = Exit 1 w'.
Proof.
  assert (Hsz : size [allow] < 2 ^ 64 - 3) by (unfold size; simpl; lia).
  split; [exact Hsz|].
  exact (Seccomp_setPolicy_outcome (fun _ => -1) [allow] [allow] true false boot Hsz).
Defined.

(** ** Further properties of the emitters and the jump patcher *)

(** X4: [Error] appends one return instruction that carries the error
    code, cut to the 16 bits of its parameter, below the action
    [SECCOMP_RET_ERRNO]: the low 16 bits of the operand are the code, the
    bits above them are those of the action, so the instruction is never
    that of [Kill], [Trap], [Trace] or [Allow], and evaluation returns the
    operand at it. *)
Theorem Error_carries_errno (retcode : Z) (w : world) :
  exists i,
    Error retcode w = Done tt {| vec := vec w ++ [i]; calls := calls w |} /\
    code i = Z.lor BPF_RET BPF_K /\ jt i = 0 /\ jf i = 0 /\
    k i mod 2 ^ 16 = to_u16 retcode /\
    k i / 2 ^ 16 = SECCOMP_RET_ERRNO / 2 ^ 16 /\
    k i <> SECCOMP_RET_KILL /\ k i <> SECCOMP_RET_TRAP /\
    k i <> SECCOMP_RET_TRACE /\ k i <> SECCOMP_RET_ALLOW /\
    (forall d A, step d i A = Return (SECCOMP_RET_ERRNO + to_u16 retcode)).
Proof.
  pose proof (Z.mod_pos_bound retcode (2 ^ 16) ltac:(lia)) as Hr.
  fold (to_u16 retcode) in Hr.
  assert (Hk : to_u32 (SECCOMP_RET_ERRNO + to_u16 retcode)
               = 5 * 2 ^ 16 + to_u16 retcode).
  { unfold to_u32, SECCOMP_RET_ERRNO. apply Z.mod_small. lia. }
  exists (BPF_STMT (Z.lor BPF_RET BPF_K) (SECCOMP_RET_ERRNO + to_u16 retcode)).
  split; [reflexivity|].
  unfold BPF_STMT. cbn [code jt jf k]. rewrite Hk.
  split; [reflexivity|]. split; [reflexivity|]. split; [reflexivity|].
  split.
  { rewrite Z.add_comm, Z.mod_add by lia. apply Z.mod_small. lia. }
  split.
  { rewrite Z.add_comm, Z.div_add by lia. rewrite Z.div_small by lia.
    reflexivity. }
  unfold SECCOMP_RET_KILL, SECCOMP_RET_TRAP, SECCOMP_RET_TRACE, SECCOMP_RET_ALLOW.
  do 4 (split; [lia|]).
  intros d A. unfold step. cbn [code k]. reflexivity.
Qed.

(** X5: the placeholder of the gate is the distance the patcher computes
    when nothing has been emitted since: setting the jump target right
    after the gate succeeds and leaves the vector as the gate left it. *)
Theorem gate_then_patch_is_gate (w : world) :
  size (vec w) + 2 < 2 ^ 64 ->
  (offset <- ValidateArchitectureAndJumpIfNeeded ;;
   SetValidateArchitectureJumpTarget offset) w =
  Done 0 {| vec := vec w ++ gate 2 1; calls := calls w |}.
Proof.
  intros Hsz. pose proof (size_nonneg (vec w)) as Hnn.
  erewrite bind_done by apply ValidateArchitectureAndJumpIfNeeded_done.
  rewrite to_size_t_id by lia.
  rewrite SetValidateArchitectureJumpTarget_unfold. cbn [vec calls]. cbn zeta.
  rewrite size_app. change (size (gate 2 1)) with 4.
  replace (size (vec w) + 4 - (size (vec w) + 2) - 1) with 1 by lia.
  change (to_size_t 1) with 1. change (255 <? 1) with false. cbn iota.
  replace ((0 <=? size (vec w) + 2) && (size (vec w) + 2 <? size (vec w) + 4))
    with true
    by (symmetry; apply andb_true_iff; split;
        [apply Z.leb_le | apply Z.ltb_lt]; lia).
  do 2 f_equal.
  replace (Z.to_nat (size (vec w) + 2)) with (length (vec w) + 2)%nat
    by (unfold size; lia).
  etransitivity; [apply (insert_app_r (vec w) (gate 2 1) 2) | reflexivity].
Qed.

Lemma gate_then_patch_is_gate_witness :
  size (vec boot) + 2 < 2 ^ 64 /\
  (offset <- ValidateArchitectureAndJumpIfNeeded ;;
   SetValidateArchitectureJumpTarget offset) boot =
  Done 0 {| vec := gate 2 1; calls := [] |}.
Proof.
  assert (H : size (vec boot) + 2 < 2 ^ 64) by (unfold size; simpl; lia).
  split; [exact H|]. exact (gate_then_patch_is_gate boot H).
Defined.

Lemma size_insert (f : filter) (i : nat) (x : sock_filter) :
  size (<[i := x]> f) = size f.
Proof. unfold size. f_equal. apply length_insert. Qed.

Lemma filter_insert_twice (f : filter) (i : nat) (x y : sock_filter) :
  <[i := y]> (<[i := x]> f) = <[i := y]> f.
Proof. apply list_insert_insert_eq. Qed.

(** X6: the patcher does not look at the instruction it replaces: when
    it succeeds, it succeeds with the same resulting state whatever
    instruction [x] was stored at the patch index before; and setting the
    same jump target twice in a row is the same as setting it once. *)
Theorem SetValidateArchitectureJumpTarget_overwrites
    (offset : Z) (x : sock_filter) (w : world) :
  (forall w',
     SetValidateArchitectureJumpTarget offset w = Done 0 w' ->
     SetValidateArchitectureJumpTarget offset
       {| vec := <[Z.to_nat offset := x]> (vec w); calls := calls w |}
     = Done 0 w') /\
  (SetValidateArchitectureJumpTarget offset ;;;
   SetValidateArchitectureJumpTarget offset) w =
  SetValidateArchitectureJumpTarget offset w.
Proof.
  split.
  - intros w'. rewrite !SetValidateArchitectureJumpTarget_unfold.
    cbn [vec calls]. cbn zeta.
    rewrite size_insert, filter_insert_twice.
    destruct (255 <? _); [discriminate|].
    destruct (_ && _); [|discriminate]. intros H. exact H.
  - unfold bind at 1. rewrite SetValidateArchitectureJumpTarget_unfold. cbn zeta.
    destruct (255 <? to_size_t (size (vec w) - offset - 1)) eqn:Hd.
    + rewrite SetValidateArchitectureJumpTarget_unfold. cbn zeta.
      rewrite Hd. reflexivity.
    + destruct ((0 <=? offset) && (offset <? size (vec w))) eqn:Hin;
        [|reflexivity].
      rewrite SetValidateArchitectureJumpTarget_unfold. cbn [vec calls]. cbn zeta.
      rewrite size_insert, Hd, Hin, filter_insert_twice.
      reflexivity.
Qed.

Lemma SetValidateArchitectureJumpTarget_overwrites_witness :
  let w := {| vec := front [allow]; calls := [] |} in
  SetValidateArchitectureJumpTarget 2
    {| vec := <[2%nat := allow]> (vec w); calls := calls w |} =
  Done 0 {| vec := gate 2 4 ++ [ld_nr; allow; trap]; calls := [] |}.
Proof.
  cbn zeta.
  apply (proj1 (SetValidateArchitectureJumpTarget_overwrites 2 allow
                  {| vec := front [allow]; calls := [] |})).
  reflexivity.
Defined.



(** ** Further properties of the built program *)






(** X9: embedding keeps the verdicts of the blocks: when a block, entered
    with the syscall number loaded, returns a value at its instruction
    [pc], evaluation of the finished program under the tag of that block
    returns the same value at the place of that instruction in the
    program. *)
Theorem block_verdict_kept
    (prctl : sock_fprog -> Z) (a64 a32 : list sock_filter) (w : world) :
  size a64 <= 252 ->
  exists ok w',
    set_seccomp_filter prctl a64 a32 w = Done ok w' /\
    (forall d pc v,
       arch d = AUDIT_ARCH_AARCH64 ->
       exec d a64 0 0 (nr d) = Returned pc v ->
       evaluate (vec w') d = Returned (5 + pc) v) /\
    (forall d pc v,
       arch d = AUDIT_ARCH_ARM ->
       exec d a32 0 0 (nr d) = Returned pc v ->
       evaluate (vec w') d = Returned (7 + length a64 + pc) v).
Proof.
  intros Hn. eexists _, _.
  split; [apply set_seccomp_filter_fits; exact Hn|]. cbn [vec]. split.
  - intros d pc v H64 Hret. rewrite evaluate_layout_64 by exact H64.
    rewrite Hret. reflexivity.
  - intros d pc v H32 Hret. rewrite evaluate_layout_32 by exact H32.
    rewrite exec_ld_nr, exec_app.
    replace (S (6 + length a64)) with (7 + length a64 + 0)%nat by lia.
    rewrite exec_relocate, Hret. reflexivity.
Qed.

Lemma block_verdict_kept_witness :
  let block := [BPF_JUMP JEQ_K 5 0 1; allow] in
  size block <= 252 /\
  exists ok w',
    set_seccomp_filter (fun _ => 0) block [] boot = Done ok w' /\
    evaluate (vec w') {| nr := 5; arch := AUDIT_ARCH_AARCH64 |}
      = Returned 6 SECCOMP_RET_ALLOW.
Proof.
  cbn zeta.
  assert (Hn : size [BPF_JUMP JEQ_K 5 0 1; allow] <= 252)
    by (unfold size; simpl; lia).
  split; [exact Hn|].
  destruct (block_verdict_kept (fun _ => 0) [BPF_JUMP JEQ_K 5 0 1; allow] [] boot Hn)
    as (ok & w' & Hrun & H64 & _).
  exists ok, w'. split; [exact Hrun|].
  apply (H64 {| nr := 5; arch := AUDIT_ARCH_AARCH64 |} 1%nat); reflexivity.
Defined.

(** X10: a 32-bit syscall never hits the 64-bit policy: under the tag
    [AUDIT_ARCH_ARM] the evaluation of the finished program is that of the
    32-bit section alone (the load of the syscall number, the 32-bit block
    and its trap), moved to its place after the 64-bit section, whatever
    the instructions of the 64-bit block are. *)
Theorem arm_syscalls_skip_the_64bit_policy
    (prctl : sock_fprog -> Z) (a64 a32 : list sock_filter) (w : world) :
  size a64 <= 252 ->
  exists ok w',
    set_seccomp_filter prctl a64 a32 w = Done ok w' /\
    forall d, arch d = AUDIT_ARCH_ARM ->
      evaluate (vec w') d =
      relocate (6 + length a64) (exec d (ld_nr :: a32 ++ [trap]) 0 0 (arch d)).
Proof.
  intros Hn. eexists _, _.
  split; [apply set_seccomp_filter_fits; exact Hn|]. cbn [vec].
  intros d H32. rewrite evaluate_layout_32 by exact H32.
  rewrite <- exec_relocate. f_equal. lia.
Qed.

Lemma arm_syscalls_skip_the_64bit_policy_witness :
  size [allow] <= 252 /\
  exists ok w',
    set_seccomp_filter (fun _ => 0) [allow] [] boot = Done ok w' /\
    evaluate (vec w') {| nr := 5; arch := AUDIT_ARCH_ARM |}
      = Returned 8 SECCOMP_RET_TRAP.
Proof.
  assert (Hn : size [allow] <= 252) by (unfold size; simpl; lia).
  split; [exact Hn|].
  destruct (arm_syscalls_skip_the_64bit_policy (fun _ => 0) [allow] [] boot Hn)
    as (ok & w' & Hrun & H32).
  exists ok, w'. split; [exact Hrun|].
  rewrite (H32 {| nr := 5; arch := AUDIT_ARCH_ARM |} eq_refl). reflexivity.
Defined.

(** X11: when the 64-bit block is closed, a 64-bit syscall never hits the
    32-bit policy: under the tag [AUDIT_ARCH_AARCH64] the evaluation of
    the finished program is that of the 64-bit section alone (the load of
    the syscall number, the 64-bit block and its trap), moved to its place
    after the gate, whatever the 32-bit block is. *)
Theorem aarch64_syscalls_stay_in_the_64bit_policy
    (prctl : sock_fprog -> Z) (a64 a32 : list sock_filter) (w : world) :
  size a64 <= 252 ->
  block_closed a64 = true ->
  exists ok w',
    set_seccomp_filter prctl a64 a32 w = Done ok w' /\
    forall d, arch d = AUDIT_ARCH_AARCH64 ->
      evaluate (vec w') d =
      relocate 4 (exec d (ld_nr :: a64 ++ [trap]) 0 0 (arch d)).
Proof.
  intros Hn Hc. eexists _, _.
  split; [apply set_seccomp_filter_fits; exact Hn|]. cbn [vec].
  intros d H64. rewrite evaluate_layout_64 by exact H64.
  rewrite exec_ld_nr, exec_app.
  pose proof (exec_relocate d a64 1 0 0 (nr d)) as Hmove.
  cbn [Nat.add] in Hmove. rewrite Hmove. clear Hmove.
  destruct (exec_closed d a64 Hc 0%nat 0%nat (nr d) ltac:(lia))
    as [(pc & v & -> & _)|[A ->]]; reflexivity.
Qed.

Lemma aarch64_syscalls_stay_in_the_64bit_policy_witness :
  let block := [BPF_JUMP JEQ_K 5 0 1; allow] in
  size block <= 252 /\ block_closed block = true /\
  exists ok w',
    set_seccomp_filter (fun _ => 0) block [allow] boot = Done ok w' /\
    evaluate (vec w') {| nr := 6; arch := AUDIT_ARCH_AARCH64 |}
      = Returned 7 SECCOMP_RET_TRAP.
Proof.
  cbn zeta.
  assert (Hn : size [BPF_JUMP JEQ_K 5 0 1; allow] <= 252)
    by (unfold size; simpl; lia).
  assert (Hc : block_closed [BPF_JUMP JEQ_K 5 0 1; allow] = true) by reflexivity.
  split; [exact Hn|]. split; [exact Hc|].
  destruct (aarch64_syscalls_stay_in_the_64bit_policy (fun _ => 0)
              [BPF_JUMP JEQ_K 5 0 1; allow] [allow] boot Hn Hc)
    as (ok & w' & Hrun & H64).
  exists ok, w'. split; [exact Hrun|].
  rewrite (H64 {| nr := 6; arch := AUDIT_ARCH_AARCH64 |} eq_refl). reflexivity.
Defined.

Lemma insn_closed_mono i (n m : nat) :
  insn_closed i n = true -> (n <= m)%nat -> insn_closed i m = true.
Proof.
  unfold insn_closed. intros H Hle.
  destruct (code i =? Z.lor (Z.lor BPF_LD BPF_W) BPF_ABS); [exact H|].
  destruct (code i =? Z.lor BPF_JMP BPF_JA).
  { apply Nat.leb_le in H. apply Nat.leb_le. lia. }
  destruct (_ || _); [|exact H].
  apply andb_true_iff in H as [H1 H2]. apply Nat.leb_le in H1, H2.
  apply andb_true_iff. split; apply Nat.leb_le; lia.
Qed.

Lemma block_closed_app (l1 l2 : list sock_filter) :
  block_closed l1 = true -> block_closed l2 = true ->
  block_closed (l1 ++ l2) = true.
Proof.
  intros H1 H2. induction l1 as [|i rest IH]; [exact H2|].
  cbn [block_closed app] in *. apply andb_true_iff in H1 as [Hi Hrest].
  apply andb_true_iff. split; [|apply IH; exact Hrest].
  apply (insn_closed_mono i (length rest)); [exact Hi|].
  rewrite length_app. lia.
Qed.




(** X13: each of [Kill], [Trap], [Error], [Trace] and [Allow] caps a
    closed vector: after it the vector is still closed, its evaluation
    always ends at a return instruction, and where the vector before let
    control fall through at its end, the evaluation now returns the value
    of that emitter at the appended instruction. *)
Theorem terminal_emitter_caps
    (retcode : Z) (E : M unit) (v : Z) (w : world) :
  In (E, v) (terminal_emitters retcode) ->
  block_closed (vec w) = true ->
  exists i,
    E w = Done tt {| vec := vec w ++ [i]; calls := calls w |} /\
    block_closed (vec w ++ [i]) = true /\
    (forall d, exists pc v', evaluate (vec w ++ [i]) d = Returned pc v') /\
    (forall d A, evaluate (vec w) d = FellOff (length (vec w)) 0 A ->
       evaluate (vec w ++ [i]) d = Returned (length (vec w)) v).
Proof.
  intros Hin Hc.
  assert (Herr : to_u32 (SECCOMP_RET_ERRNO + to_u16 retcode)
                 = SECCOMP_RET_ERRNO + to_u16 retcode).
  { pose proof (Z.mod_pos_bound retcode (2 ^ 16) ltac:(lia)) as Hr.
    fold (to_u16 retcode) in Hr.
    unfold to_u32, SECCOMP_RET_ERRNO. apply Z.mod_small. lia. }
  assert (Hcap : forall i,
    code i = Z.lor BPF_RET BPF_K -> k i = v ->
    block_closed (vec w ++ [i]) = true /\
    (forall d, exists pc v', evaluate (vec w ++ [i]) d = Returned pc v') /\
    (forall d A, evaluate (vec w) d = FellOff (length (vec w)) 0 A ->
       evaluate (vec w ++ [i]) d = Returned (length (vec w)) v)).
  { intros i Hcode Hk.
    assert (Hstep : forall d A, step d i A = Return v).
    { intros d A. unfold step. rewrite Hcode, Hk. reflexivity. }
    assert (Hci : block_closed [i] = true).
    { cbn [block_closed]. unfold insn_closed. rewrite Hcode. reflexivity. }
    split; [apply block_closed_app; assumption|]. split.
    - intros d. unfold evaluate. rewrite exec_app.
      destruct (exec_closed d (vec w) Hc 0%nat 0%nat 0 ltac:(lia))
        as [(pc & v' & -> & _)|[A ->]]; [eauto|].
      cbn [exec]. rewrite Hstep. eauto.
    - intros d A Hfall. unfold evaluate in *. rewrite exec_app, Hfall.
      cbn [exec]. rewrite Hstep. reflexivity. }
  cbn [terminal_emitters In] in Hin.
  destruct Hin as [Heq|[Heq|[Heq|[Heq|[Heq|[]]]]]];
    injection Heq as <- <-; eexists; (split; [reflexivity|]);
    apply Hcap; try reflexivity.
  cbn [BPF_STMT k]. exact Herr.
Qed.

Lemma terminal_emitter_caps_witness :
  In (Allow, SECCOMP_RET_ALLOW) (terminal_emitters 0) /\
  block_closed (vec {| vec := [ld_nr]; calls := [] |}) = true /\
  exists i,
    Allow {| vec := [ld_nr]; calls := [] |}
      = Done tt {| vec := [ld_nr] ++ [i]; calls := [] |} /\
    evaluate ([ld_nr] ++ [i]) {| nr := 1; arch := 2 |}
      = Returned 1 SECCOMP_RET_ALLOW.
Proof.
  assert (Hin : In (Allow, SECCOMP_RET_ALLOW) (terminal_emitters 0))
    by (cbn; tauto).
  assert (Hc : block_closed (vec {| vec := [ld_nr]; calls := [] |}) = true)
    by reflexivity.
  split; [exact Hin|]. split; [exact Hc|].
  destruct (terminal_emitter_caps 0 Allow SECCOMP_RET_ALLOW
              {| vec := [ld_nr]; calls := [] |} Hin Hc)
    as (i & Hrun & _ & _ & Hfall).
  exists i. split; [exact Hrun|].
  apply (Hfall {| nr := 1; arch := 2 |} 1). reflexivity.
Defined.
